(** * The [ForLoop] action of [launch/actions/for_loop.py]

    A shallow embedding of the [ForLoop] action: its constructor and
    properties, [execute] (the expansion of the loop into a flat list of
    entities) and the three callbacks it wraps into [OpaqueFunction]s.

    Python objects have identity, so the embedding threads an explicit
    world: the launch context, a heap of the entities created so far (an
    object's identity is its position in the heap) and the trace of what the
    loggers and the substitutions did.  Methods are computations in a state
    and exception monad over the pair of [self] and the world. *)

From Stdlib Require Import ZArith Lia Ascii String.
From stdpp Require Import base option list gmap strings pretty.

Open Scope string_scope.
Open Scope Z_scope.
Open Scope list_scope.

(* ================================================================= *)
(** ** Python builtins *)

(** [str(i)] for an [int]: the decimal numeral, with a minus sign below 0. *)
Definition py_str (i : Z) : string := pretty i.

(** [range(num)]: [0, 1, ..., num - 1], empty when [num <= 0]. *)
Definition py_range (num : Z) : list Z := seqZ 0 num.

(** An [int(text)] for byte strings of ASCII text: surrounding white space is
    dropped, one sign is allowed, and the digits may be grouped by single
    underscores.  The development is parametric in the parser ([py_int]
    below); this one instantiates it in the examples. *)
Definition is_space (c : ascii) : bool :=
  let n := nat_of_ascii c in
  bool_decide (n = 32 ∨ (9 ≤ n ∧ n ≤ 13) ∨ (28 ≤ n ∧ n ≤ 31))%nat.

Definition digit_of (c : ascii) : option Z :=
  let n := nat_of_ascii c in
  if bool_decide (48 ≤ n ∧ n ≤ 57)%nat then Some (Z.of_nat (n - 48)) else None.

Fixpoint digits_value (acc : Z) (after_digit : bool) (cs : list ascii) : option Z :=
  match cs with
  | [] => if after_digit then Some acc else None
  | c :: cs' =>
      match digit_of c with
      | Some d => digits_value (10 * acc + d) true cs'
      | None =>
          if bool_decide (c = "_"%char) && after_digit
          then digits_value acc false cs'
          else None
      end
  end.

Definition strip (cs : list ascii) : list ascii :=
  let drop := fix drop (l : list ascii) :=
    match l with
    | c :: l' => if is_space c then drop l' else l
    | [] => []
    end in
  rev (drop (rev (drop cs))).

Definition ascii_int (text : string) : option Z :=
  match strip (list_ascii_of_string text) with
  | "-"%char :: cs => Z.opp <$> digits_value 0 false cs
  | "+"%char :: cs => digits_value 0 false cs
  | cs => digits_value 0 false cs
  end.

(* ================================================================= *)
(** ** Exceptions and the method monad *)

Inductive Exception :=
  | SubstitutionFailure (name : string)
      (* LaunchConfiguration.perform: the launch configuration is not declared *)
  | ValueError (text : string)
      (* int(): the text is not an integer numeral *)
  | EntityConstructionError
      (* the call of entity_t on entity_kwargs: the constructor rejects them *)
  | AttributeError (name : string)
      (* context.locals: no such local *)
  | LocalsStackEmpty
      (* context._pop_locals: nothing was pushed *)
  | DepthExhausted.
      (* not a Python exception: the bound on the depth of the visit of a
         launch description, below, was reached *)

(** The two ways the resolution of the count fails (the specification's
    [CountResolutionError], also written [InvalidCountError]). *)
Definition CountResolutionError (e : Exception) : Prop :=
  match e with
  | SubstitutionFailure _ | ValueError _ => True
  | _ => False
  end.

Inductive Result (A : Type) :=
  | Return (a : A)
  | Raise (e : Exception).
Arguments Return {A} a.
Arguments Raise {A} e.

Definition M (S A : Type) : Type := S → S * Result A.

Definition ret {S A} (a : A) : M S A := λ s, (s, Return a).

Definition bind {S A B} (m : M S A) (k : A → M S B) : M S B :=
  λ s, match m s with
       | (s', Return a) => k a s'
       | (s', Raise e) => (s', Raise e)
       end.

Definition raise {S A} (e : Exception) : M S A := λ s, (s, Raise e).
Definition gets {S A} (f : S → A) : M S A := λ s, (s, Return (f s)).
Definition modify {S} (f : S → S) : M S () := λ s, (f s, Return ()).

(** The list a computation returned, empty when it raised. *)
Definition returned {S A} (r : S * Result (list A)) : list A :=
  match r.2 with
  | Return l => l
  | Raise _ => []
  end.

(** Run a computation on the second component of the state. *)
Definition on_snd {S1 S2 A} (m : M S2 A) : M (S1 * S2) A :=
  λ s, match m s.2 with (w, r) => ((s.1, w), r) end.

Declare Scope method_scope.
Delimit Scope method_scope with method.
Notation "x <- m ;; k" := (bind m (λ x, k))
  (at level 100, m at next level, right associativity) : method_scope.
Notation "m ;; k" := (bind m (λ _, k))
  (at level 100, right associativity) : method_scope.
Open Scope method_scope.

(* ================================================================= *)
(** ** The launch context *)

(** Modelled from the spec: the Scoped Variable Store, that is the locals of
    [LaunchContext] (launch_context.py is not among the sources).  A stack of
    frames, each a map from names to strings; the current frame is always
    there, a push puts an empty frame on top, a pop discards the top frame,
    and a lookup resolves to the nearest frame that binds the name. *)
Record Locals := {
  current : gmap string string;
  enclosing : list (gmap string string);
}.

Definition frames (l : Locals) : list (gmap string string) :=
  current l :: enclosing l.

Definition push_frame (l : Locals) : Locals :=
  {| current := ∅; enclosing := frames l |}.

Definition pop_frame (l : Locals) : option Locals :=
  match enclosing l with
  | [] => None
  | f :: fs => Some {| current := f; enclosing := fs |}
  end.

Fixpoint read_frames (name : string) (fs : list (gmap string string)) : option string :=
  match fs with
  | [] => None
  | f :: fs' =>
      match f !! name with
      | Some v => Some v
      | None => read_frames name fs'
      end
  end.

Definition read (name : string) (l : Locals) : option string :=
  read_frames name (frames l).

Definition contains (name : string) (l : Locals) : bool :=
  bool_decide (is_Some (read name l)).

Definition bind_local (name value : string) (l : Locals) : Locals :=
  {| current := <[name := value]> (current l); enclosing := enclosing l |}.

Record LaunchContext := {
  launch_configurations : gmap string string;
  locals : Locals;
}.

Definition with_locals (l : Locals) (c : LaunchContext) : LaunchContext :=
  {| launch_configurations := launch_configurations c; locals := l |}.

(** What the loggers and the substitutions do, newest first. *)
Inductive Event :=
  | LogDebug (logger msg : string)
  | LogWarning (logger msg : string)
  | LogInfoMsg (msg : string)
  | Resolved (name value : string).
      (* a reference to the local [name] was resolved to [value] *)

(** The messages logged at the level of information, newest first. *)
Definition info_messages (t : list Event) : list string :=
  omap (λ ev, match ev with LogInfoMsg msg => Some msg | _ => None end) t.

(** How many elements of a list pass a test. *)
Definition count {A} (p : A → bool) (l : list A) : nat := length (List.filter p l).

(* ================================================================= *)
(** ** The ForLoop action *)

Section ForLoop.

(** The classes of launch description entities, the dictionaries of their
    constructor arguments and their instances are those of the launch
    description the loop is part of.  [construct id entity_t entity_kwargs]
    is the call of the class on the unpacked dictionary: the new instance,
    or [None] when the constructor raises.  A constructor may consult more
    than its arguments, so the outcome may differ from one call to the
    next: [id], the identity the new object would get, tells the calls
    apart.  [py_int] is the builtin [int] on strings. *)
Context {entity_t kwargs entity : Type}.
Variable construct : nat → entity_t → kwargs → option entity.
Variable py_int : string → option Z.

Record ForLoop := {
  _launch_argument_name : string;
  _entities : list (entity_t * kwargs);
  _logger : string;
}.

(** [get_logger(__name__)]: loggers are known by the name of the module. *)
Definition get_logger : string := "launch.actions.for_loop".

Definition __init__ (launch_argument_name : string)
    (entities : list (entity_t * kwargs)) : ForLoop :=
  {| _launch_argument_name := launch_argument_name;
     _entities := entities;
     _logger := get_logger |}.

Definition launch_argument_name (self : ForLoop) : string :=
  _launch_argument_name self.

Definition entities (self : ForLoop) : list (entity_t * kwargs) :=
  _entities self.

(** [describe]: the name of the class of [self], then the two attributes
    between parentheses.  [type_name] is [type(self).__name__], which a
    subclass changes, and [repr] is the text the f-string makes of the list
    of entities. *)
Definition describe (type_name : string) (repr : list (entity_t * kwargs) → string)
    (self : ForLoop) : string :=
  type_name +:+
  ("(launch_argument_name='" +:+ _launch_argument_name self +:+
   "', entities=" +:+ repr (_entities self) +:+ ")").

(** The bound methods that [execute] hands to [OpaqueFunction], together
    with the [args] given along. *)
Inductive Callable :=
  | push_locals_of (self : ForLoop)
  | set_index_local_of (self : ForLoop) (local_name : string) (index : Z)
  | pop_locals_of (self : ForLoop).

(** What a list of entities holds: an [OpaqueFunction] around one of the
    callbacks, or an instance of one of the classes. *)
Inductive Entity :=
  | OpaqueFunction (function : Callable)
  | Instance (e : entity).

(** An entity together with its identity. *)
Record Object := { oid : nat; value : Entity }.

Record World := {
  context : LaunchContext;
  objects : list Entity;      (* the heap: the object [id] is [objects !! id] *)
  trace : list Event;
}.

Definition with_context (c : LaunchContext) (w : World) : World :=
  {| context := c; objects := objects w; trace := trace w |}.

(** *** Primitives on the world *)

(** Allocation of a new entity. *)
Definition new (e : Entity) : M World Object :=
  λ w, ({| context := context w; objects := objects w ++ [e]; trace := trace w |},
        Return {| oid := length (objects w); value := e |}).

Definition instantiate (t : entity_t) (kw : kwargs) : M World Object :=
  λ w, match construct (length (objects w)) t kw with
       | Some e => new (Instance e) w
       | None => (w, Raise EntityConstructionError)
       end.

Definition logged (ev : Event) (w : World) : World :=
  {| context := context w; objects := objects w; trace := ev :: trace w |}.

Definition emit (ev : Event) : M World () := modify (logged ev).

(** Modelled from the spec: [LaunchConfiguration(name).perform(context)],
    the read of a named configuration value through the Deferred Value
    Resolver (substitutions/launch_configuration.py is not among the
    sources); it fails when the value was not declared. *)
Definition LaunchConfiguration_perform (name : string) : M World string :=
  λ w, match launch_configurations (context w) !! name with
       | Some text => (w, Return text)
       | None => (w, Raise (SubstitutionFailure name))
       end.

(** [context._push_locals()], [context._pop_locals()],
    [name in context.locals], [context.locals.__getattr__(name)] and
    [context.extend_locals({name: value})], on the store modelled above. *)
Definition context_push_locals : M World () :=
  modify (λ w, with_context (with_locals (push_frame (locals (context w))) (context w)) w).

Definition context_pop_locals : M World () :=
  λ w, match pop_frame (locals (context w)) with
       | Some l => (with_context (with_locals l (context w)) w, Return ())
       | None => (w, Raise LocalsStackEmpty)
       end.

Definition locals_contains (name : string) : M World bool :=
  gets (λ w, contains name (locals (context w))).

Definition locals_getattr (name : string) : M World string :=
  λ w, match read name (locals (context w)) with
       | Some v => (w, Return v)
       | None => (w, Raise (AttributeError name))
       end.

Definition extend_locals (name value : string) : M World () :=
  modify (λ w, with_context (with_locals (bind_local name value (locals (context w))) (context w)) w).

(** *** Methods *)

(** A method runs on [self] and the world. *)
Definition Method (A : Type) : Type := M (ForLoop * World) A.

Definition get_self : Method ForLoop := gets fst.
Definition world {A} (m : M World A) : Method A := on_snd m.

(** The list comprehension over [self._entities]: every class is called on
    its dictionary, in the order of the list. *)
Fixpoint comprehension (templates : list (entity_t * kwargs)) : M World (list Object) :=
  match templates with
  | [] => ret []
  | (t, kw) :: rest =>
      o <- instantiate t kw ;;
      os <- comprehension rest ;;
      ret (o :: os)
  end.

(** The list display of one turn of the loop, the argument of
    [entities.extend]: its elements are evaluated from left to right. *)
Definition iteration (i : Z) : Method (list Object) :=
  self <- get_self ;;
  push <- world (new (OpaqueFunction (push_locals_of self))) ;;
  set <- world (new (OpaqueFunction
           (set_index_local_of self (_launch_argument_name self) i))) ;;
  body <- world (comprehension (_entities self)) ;;
  pop <- world (new (OpaqueFunction (pop_locals_of self))) ;;
  ret ([push; set] ++ body ++ [pop]).

(** [for i in range(num): entities.extend([...])], for the indices that
    are left. *)
Fixpoint for_loop (indices : list Z) (entities : list Object) : Method (list Object) :=
  match indices with
  | [] => ret entities
  | i :: indices' =>
      block <- iteration i ;;
      for_loop indices' (entities ++ block)
  end.

Definition execute : Method (list Object) :=
  self <- get_self ;;
  text <- world (LaunchConfiguration_perform (_launch_argument_name self)) ;;
  num <- match py_int text with
         | Some n => ret n
         | None => raise (ValueError text)
         end ;;
  world (emit (LogDebug (_logger self) ("for-loop length=" +:+ py_str num))) ;;
  for_loop (py_range num) [].

Definition _push_locals : Method (option (list Object)) :=
  world context_push_locals ;;
  ret None.

Definition _pop_locals : Method (option (list Object)) :=
  world context_pop_locals ;;
  ret None.

Definition _set_index_local (local_name : string) (index : Z)
    : Method (option (list Object)) :=
  exists_ <- world (locals_contains local_name) ;;
  (if exists_ : bool then
     v <- world (locals_getattr local_name) ;;
     self <- get_self ;;
     world (emit (LogWarning (_logger self)
       ("local variable already exists: " +:+ local_name +:+ "=" +:+ v)))
   else ret ()) ;;
  world (extend_locals local_name (py_str index)) ;;
  ret None.

(** Run a method of [self] from the world alone; what it returns with the
    world is the [self] it leaves. *)
Definition invoke {A} (self : ForLoop) (m : Method A) : M World (ForLoop * A) :=
  λ w, match m (self, w) with
       | ((self', w'), Return a) => (w', Return (self', a))
       | ((_, w'), Raise e) => (w', Raise e)
       end.

(** Modelled from the spec: [OpaqueFunction.execute], the Deferred-Callable
    Entity (actions/opaque_function.py is not among the sources): it calls
    the function it wraps on the context, with the [args], and returns
    what the function returns. *)
Definition OpaqueFunction_execute (function : Callable)
    : M World (option (list Object)) :=
  match function with
  | push_locals_of self => r <- invoke self _push_locals ;; ret r.2
  | set_index_local_of self local_name index =>
      r <- invoke self (_set_index_local local_name index) ;; ret r.2
  | pop_locals_of self => r <- invoke self _pop_locals ;; ret r.2
  end.

(** *** The vocabulary of the specification *)

(** The steps of the specification, told by what an object holds. *)
Definition is_push_step (o : Object) : bool :=
  match value o with OpaqueFunction (push_locals_of _) => true | _ => false end.

Definition is_bind_step (o : Object) : bool :=
  match value o with OpaqueFunction (set_index_local_of _ _ _) => true | _ => false end.

Definition is_pop_step (o : Object) : bool :=
  match value o with OpaqueFunction (pop_locals_of _) => true | _ => false end.

Definition is_template_entity (o : Object) : bool :=
  match value o with Instance _ => true | _ => false end.

(** [o] is a new instance of the template [tk]: what the class made of the
    dictionary when [o] was created. *)
Definition instance_of (tk : entity_t * kwargs) (o : Object) : Prop :=
  ∃ x, value o = Instance x ∧ construct (oid o) tk.1 tk.2 = Some x.

(** The emissions of iteration [i], in the words of the specification: a
    scope-push step, the step that binds the index, a new instance of
    every template entity in the declared order, a scope-pop step. *)
Definition iteration_shape (self : ForLoop) (i : Z) (block : list Object) : Prop :=
  ∃ push set body pop,
    block = [push; set] ++ body ++ [pop] ∧
    value push = OpaqueFunction (push_locals_of self) ∧
    value set = OpaqueFunction
      (set_index_local_of self (_launch_argument_name self) i) ∧
    Forall2 instance_of (_entities self) body ∧
    value pop = OpaqueFunction (pop_locals_of self).

(** The world with more objects on the heap. *)
Definition allocated (es : list Entity) (w : World) : World :=
  {| context := context w; objects := objects w ++ es; trace := trace w |}.

(** The instances a comprehension makes from the identity [id] on, up to
    the first rejection, and whether there was none. *)
Fixpoint constructed (id : nat) (templates : list (entity_t * kwargs))
    : list entity * bool :=
  match templates with
  | [] => ([], true)
  | (t, kw) :: rest =>
      match construct id t kw with
      | None => ([], false)
      | Some x =>
          let (xs, ok) := constructed (S id) rest in (x :: xs, ok)
      end
  end.

(** Objects with consecutive identities, from [id] on. *)
Definition numbered (id : nat) (es : list Entity) : list Object :=
  imap (λ j e, {| oid := id + j; value := e |}) es.

(** What one turn of the loop creates before the instances, and in all. *)
Definition scope_entered (self : ForLoop) (i : Z) : list Entity :=
  [OpaqueFunction (push_locals_of self);
   OpaqueFunction (set_index_local_of self (_launch_argument_name self) i)].

Definition turn (self : ForLoop) (i : Z) (xs : list entity) : list Entity :=
  scope_entered self i ++ (Instance <$> xs) ++ [OpaqueFunction (pop_locals_of self)].

(** The loop unrolled: the entities it creates from the identity [id] on,
    up to the first rejection, and whether there was none. *)
Fixpoint unrolled (id : nat) (self : ForLoop) (indices : list Z)
    : list Entity * bool :=
  match indices with
  | [] => ([], true)
  | i :: rest =>
      let (xs, ok) := constructed (id + 2) (_entities self) in
      if ok then
        let (es, ok') := unrolled (id + length (turn self i xs)) self rest in
        (turn self i xs ++ es, ok')
      else (scope_entered self i ++ (Instance <$> xs), false)
  end.

(** The index a bind step binds. *)
Definition bound_index (o : Object) : option Z :=
  match value o with
  | OpaqueFunction (set_index_local_of _ _ index) => Some index
  | _ => None
  end.

(** The identity of the instance of the template at position [j] that turn
    [k] of the loop makes, when the expansion starts on the heap of [w]:
    every turn before it created its three scope steps and one instance
    per template, and this turn its push and bind steps. *)
Definition instance_id (w : World) (self : ForLoop) (k j : nat) : nat :=
  (length (objects w) + k * (length (_entities self) + 3) + 2 + j)%nat.

End ForLoop.

Arguments ForLoop : clear implicits.
Arguments Callable : clear implicits.
Arguments Entity : clear implicits.
Arguments Object : clear implicits.
Arguments World : clear implicits.
Arguments Method : clear implicits.

(* ================================================================= *)
(** ** A launch description around the loop *)

(** The classes the module names: [LogInfo], of its docstring, and [ForLoop]
    itself, which as an action can be an entity of another loop. *)

(** Modelled from the spec: the index reference surface and the deferred
    values an entity's arguments may embed (substitutions/ is not among the
    sources): a text, or a reference to a local
    ([ForLoop.IndexSubstitution = LocalSubstitution]). *)
Inductive Substitution :=
  | TextSubstitution (text : string)
  | LocalSubstitution (expression : string).

Inductive Class := LogInfo_t | ForLoop_t.

(** Keyword arguments, by the names they give: [dict(msg=...)] and
    [dict(launch_argument_name=..., entities=[...])]. *)
#[warnings="-register-all"]
Inductive Kwargs :=
  | kwargs_msg (msg : list Substitution)
  | kwargs_for_loop (launch_argument_name : string) (entities : list (Class * Kwargs)).

Inductive Action :=
  | LogInfo (msg : list Substitution)
  | ForLoopAction (loop : ForLoop Class Kwargs).

(** A class called on keyword arguments that are not those of its
    constructor raises. *)
Definition Class_call (_ : nat) (cls : Class) (kw : Kwargs) : option Action :=
  match cls, kw with
  | LogInfo_t, kwargs_msg msg => Some (LogInfo msg)
  | ForLoop_t, kwargs_for_loop name entities => Some (ForLoopAction (__init__ name entities))
  | _, _ => None
  end.

(** Modelled from the spec: a reference resolves, when execution reaches it,
    to the string the nearest frame binds the name to. *)
Definition Substitution_perform (s : Substitution) : M (World Class Kwargs Action) string :=
  match s with
  | TextSubstitution text => ret text
  | LocalSubstitution name =>
      v <- locals_getattr name ;;
      emit (Resolved name v) ;;
      ret v
  end.

Fixpoint perform_substitutions (msg : list Substitution)
    : M (World Class Kwargs Action) string :=
  match msg with
  | [] => ret ""
  | s :: msg' =>
      v <- Substitution_perform s ;;
      vs <- perform_substitutions msg' ;;
      ret (v +:+ vs)
  end.

(** Modelled from the spec: the entity that emits a text with references in
    it ([LogInfo], actions/log_info.py is not among the sources). *)
Definition LogInfo_execute (msg : list Substitution)
    : M (World Class Kwargs Action) (option (list (Object Class Kwargs Action))) :=
  text <- perform_substitutions msg ;;
  emit (LogInfoMsg text) ;;
  ret None.

Section Visit.
Variable py_int : string → option Z.

(** Modelled from the spec: the Entity Execution Contract.  An entity is
    executed against the context and may return further entities. *)
Definition Entity_execute (e : Entity Class Kwargs Action)
    : M (World Class Kwargs Action) (option (list (Object Class Kwargs Action))) :=
  match e with
  | OpaqueFunction function => OpaqueFunction_execute function
  | Instance (LogInfo msg) => LogInfo_execute msg
  | Instance (ForLoopAction loop) =>
      r <- invoke loop (execute Class_call py_int) ;;
      ret (Some r.2)
  end.

(** Modelled from the spec: the caller that runs a sequence of entities
    strictly in order, the entities an entity returns being run, in order,
    before the entity that follows it.  [depth] bounds how deep returned
    entities are followed. *)
Fixpoint visit (depth : nat) (es : list (Object Class Kwargs Action))
    : M (World Class Kwargs Action) () :=
  match depth with
  | O => match es with [] => ret () | _ :: _ => raise DepthExhausted end
  | S depth' =>
      (fix visit_all (es : list (Object Class Kwargs Action)) :=
         match es with
         | [] => ret ()
         | o :: es' =>
             sub <- Entity_execute (value o) ;;
             match sub with
             | Some sub_entities => visit depth' sub_entities
             | None => ret ()
             end ;;
             visit_all es'
         end) es
  end.

End Visit.




(** A world with nothing in it but the launch configurations. *)
Definition initial_world (configurations : gmap string string) : World Class Kwargs Action :=
  {| context := {| launch_configurations := configurations;
                   locals := {| current := ∅; enclosing := [] |} |};
     objects := [];
     trace := [] |}.

(** *** Launch descriptions to run *)

(** The loop of the docstring of the class. *)
Definition docstring_loop : ForLoop Class Kwargs :=
  __init__ "num"
    [(LogInfo_t, kwargs_msg [TextSubstitution "i="; LocalSubstitution "num"])].



(** A loop with a template no constructor accepts: [LogInfo] is given the
    keyword arguments of a loop. *)
Definition misdeclared_loop : ForLoop Class Kwargs :=
  __init__ "num"
    [(LogInfo_t, kwargs_msg [LocalSubstitution "num"]);
     (LogInfo_t, kwargs_for_loop "num" [])].

(** Constructors that accept their arguments as long as fewer than [limit]
    objects were created. *)
Definition Class_call_until (limit : nat) (id : nat) (cls : Class) (kw : Kwargs)
    : option Action :=
  if bool_decide (id < limit)%nat then Class_call id cls kw else None.

#[global] Instance Event_eq_dec : EqDecision Event.
Proof. solve_decision. Defined.

(* ================================================================= *)
(** * Properties *)

(** ** The scoped variable store *)

Lemma contains_read name l : contains name l = true ↔ is_Some (read name l).
Proof. unfold contains. apply bool_decide_eq_true. Qed.

Lemma contains_read_None name l : contains name l = false ↔ read name l = None.
Proof.
  unfold contains. rewrite bool_decide_eq_false, <- eq_None_not_Some. done.
Qed.

Lemma read_push_frame name l : read name (push_frame l) = read name l.
Proof. unfold read, push_frame, frames. simpl. by rewrite lookup_empty. Qed.

Lemma read_bind_local_eq name value l : read name (bind_local name value l) = Some value.
Proof. unfold read, bind_local, frames. simpl. by rewrite lookup_insert_eq. Qed.

Lemma read_bind_local_ne name name' value l :
  name ≠ name' → read name' (bind_local name value l) = read name' l.
Proof.
  intros Hne. unfold read, bind_local, frames. simpl.
  by rewrite lookup_insert_ne.
Qed.

Lemma pop_push_frame l : pop_frame (push_frame l) = Some l.
Proof. by destruct l. Qed.

Lemma pop_bind_push_frame name value l :
  pop_frame (bind_local name value (push_frame l)) = Some l.
Proof. by destruct l. Qed.

(** ** Lists of objects *)

Lemma count_app {A} (p : A → bool) (l1 l2 : list A) :
  count p (l1 ++ l2) = (count p l1 + count p l2)%nat.
Proof. unfold count. by rewrite List.filter_app, length_app. Qed.

(** ** The expansion *)

Section ForLoopProperties.
Context {entity_t kwargs entity : Type}.
Variable construct : nat → entity_t → kwargs → option entity.
Variable py_int : string → option Z.

Local Abbreviation ForLoop := (ForLoop entity_t kwargs).
Local Abbreviation Entity := (Entity entity_t kwargs entity).
Local Abbreviation Object := (Object entity_t kwargs entity).
Local Abbreviation World := (World entity_t kwargs entity).

Implicit Types (self : ForLoop) (w : World) (es : list Entity) (xs : list entity).

Lemma allocated_nil w : allocated [] w = w.
Proof. destruct w. unfold allocated. simpl. by rewrite app_nil_r. Qed.

Lemma allocated_app es1 es2 w :
  allocated es2 (allocated es1 w) = allocated (es1 ++ es2) w.
Proof. unfold allocated. simpl. by rewrite app_assoc. Qed.

Lemma numbered_cons id e es :
  numbered id (e :: es) = {| oid := id; value := e |} :: numbered (S id) es.
Proof.
  unfold numbered. simpl. rewrite Nat.add_0_r. f_equal.
  apply imap_ext. intros j x _. simpl. f_equal. lia.
Qed.

Lemma numbered_app id es1 es2 :
  numbered id (es1 ++ es2) = numbered id es1 ++ numbered (id + length es1) es2.
Proof.
  revert id. induction es1 as [|e es1 IH]; intros id.
  - simpl. by rewrite Nat.add_0_r.
  - rewrite <- app_comm_cons, !numbered_cons, IH. simpl length.
    by replace (id + S (length es1))%nat with (S id + length es1)%nat by lia.
Qed.

Lemma numbered_length id es : length (numbered id es) = length es.
Proof. unfold numbered. apply length_imap. Qed.

Lemma numbered_value id es : value <$> numbered id es = es.
Proof.
  revert id. induction es as [|e es IH]; intros id; [done|].
  rewrite numbered_cons. simpl. by rewrite IH.
Qed.

Lemma numbered_oid id es : oid <$> numbered id es = seq id (length es).
Proof.
  revert id. induction es as [|e es IH]; intros id; [done|].
  rewrite numbered_cons. simpl. by rewrite IH.
Qed.

(** The comprehension makes the instances [constructed] tells, one after
    the other on the heap, and raises at the first rejection. *)
Lemma comprehension_eq templates w :
  comprehension construct templates w =
    let (xs, ok) := constructed construct (length (objects w)) templates in
    (allocated (Instance <$> xs) w,
     if ok then Return (numbered (length (objects w)) (Instance <$> xs))
     else Raise EntityConstructionError).
Proof.
  revert w. induction templates as [|[t kw] rest IH]; intros w; simpl.
  - by rewrite allocated_nil.
  - unfold bind, instantiate.
    destruct (construct (length (objects w)) t kw) as [x|] eqn:Hx; simpl.
    + rewrite IH. simpl. rewrite length_app. simpl.
      replace (length (objects w) + 1)%nat with (S (length (objects w))) by lia.
      destruct (constructed construct (S (length (objects w))) rest) as [xs ok].
      simpl. rewrite numbered_cons.
      replace (allocated (Instance <$> xs)
                 {| context := context w; objects := objects w ++ [Instance x];
                    trace := trace w |})
        with (allocated (Instance x :: (Instance <$> xs)) w)
        by (unfold allocated; simpl; by rewrite <- app_assoc).
      by destruct ok.
    + by rewrite allocated_nil.
Qed.

Lemma iteration_eq i self w :
  iteration construct i (self, w) =
    let (xs, ok) := constructed construct (length (objects w) + 2) (_entities self) in
    if ok then
      ((self, allocated (turn self i xs) w),
       Return (numbered (length (objects w)) (turn self i xs)))
    else
      ((self, allocated (scope_entered self i ++ (Instance <$> xs)) w),
       Raise EntityConstructionError).
Proof.
  unfold iteration, bind, get_self, gets, world, on_snd, new. simpl.
  rewrite comprehension_eq. simpl. rewrite !length_app. simpl.
  replace (length (objects w) + 1 + 1)%nat with (length (objects w) + 2)%nat by lia.
  destruct (constructed construct (length (objects w) + 2) (_entities self)) as [xs ok].
  destruct ok; simpl.
  - unfold allocated, turn, scope_entered, ret. simpl. f_equal.
    + f_equal. f_equal. rewrite <- !app_assoc. simpl. done.
    + f_equal. rewrite !numbered_cons, numbered_app. simpl.
      rewrite !length_app, length_fmap. simpl. unfold numbered. simpl.
      replace (length (objects w) + 1)%nat with (S (length (objects w))) by lia.
      replace (length (objects w) + 2)%nat with (S (S (length (objects w)))) by lia.
      do 5 f_equal. lia.
  - unfold allocated, scope_entered. simpl. do 3 f_equal.
    by rewrite <- !app_assoc.
Qed.

Lemma for_loop_eq indices self w acc :
  for_loop construct indices acc (self, w) =
    let (es, ok) := unrolled construct (length (objects w)) self indices in
    ((self, allocated es w),
     if ok then Return (acc ++ numbered (length (objects w)) es)
     else Raise EntityConstructionError).
Proof.
  revert w acc. induction indices as [|i rest IH]; intros w acc.
  - simpl. rewrite allocated_nil. unfold ret. by rewrite app_nil_r.
  - cbn [for_loop unrolled]. unfold bind. rewrite iteration_eq.
    destruct (constructed construct (length (objects w) + 2) (_entities self)) as [xs ok].
    destruct ok; [|done].
    rewrite IH. cbn [objects allocated]. rewrite length_app.
    destruct (unrolled construct (length (objects w) + length (turn self i xs)) self rest)
      as [es ok'].
    rewrite allocated_app. destruct ok'; [|done].
    by rewrite numbered_app, app_assoc.
Qed.

Lemma execute_eq self w :
  execute construct py_int (self, w) =
    match launch_configurations (context w) !! _launch_argument_name self with
    | None => ((self, w), Raise (SubstitutionFailure (_launch_argument_name self)))
    | Some text =>
        match py_int text with
        | None => ((self, w), Raise (ValueError text))
        | Some num =>
            let (es, ok) := unrolled construct (length (objects w)) self (py_range num) in
            ((self,
              allocated es
                (logged (LogDebug (_logger self) ("for-loop length=" +:+ py_str num)) w)),
             if ok then Return (numbered (length (objects w)) es)
             else Raise EntityConstructionError)
        end
    end.
Proof.
  unfold execute, bind, get_self, gets, world, on_snd, LaunchConfiguration_perform.
  simpl.
  destruct (launch_configurations (context w) !! _launch_argument_name self)
    as [text|]; [|done].
  destruct (py_int text) as [num|]; [|done].
  simpl. by rewrite for_loop_eq.
Qed.

(** *** What the comprehension makes *)

Lemma constructed_instances id templates xs :
  constructed construct id templates = (xs, true) →
  Forall2 (instance_of construct) templates (numbered id (Instance <$> xs)).
Proof.
  revert id xs. induction templates as [|[t kw] rest IH]; intros id xs H; simpl in H.
  - injection H as <-. constructor.
  - destruct (construct id t kw) as [x|] eqn:Hx; [|done].
    destruct (constructed construct (S id) rest) as [xs' ok] eqn:Hrest.
    injection H as <- ->. rewrite fmap_cons, numbered_cons.
    constructor; [|by apply IH].
    exists x. done.
Qed.

Lemma constructed_accept id templates :
  (∀ j t kw, templates !! j = Some (t, kw) → is_Some (construct (id + j)%nat t kw)) →
  ∃ xs, constructed construct id templates = (xs, true) ∧ length xs = length templates.
Proof.
  revert id. induction templates as [|[t kw] rest IH]; intros id H; simpl.
  - by exists [].
  - destruct (H 0%nat t kw eq_refl) as [x Hx]. rewrite Nat.add_0_r in Hx. rewrite Hx.
    destruct (IH (S id)) as (xs & -> & Hlen).
    { intros j t' kw' Hj. replace (S id + j)%nat with (id + S j)%nat by lia.
      by apply H. }
    exists (x :: xs). simpl. by rewrite Hlen.
Qed.

Lemma constructed_reject id templates j t kw :
  templates !! j = Some (t, kw) →
  (∀ j' t' kw', (j' < j)%nat → templates !! j' = Some (t', kw') →
     is_Some (construct (id + j')%nat t' kw')) →
  construct (id + j)%nat t kw = None →
  ∃ xs, constructed construct id templates = (xs, false) ∧ length xs = j.
Proof.
  revert id j. induction templates as [|[t0 kw0] rest IH]; intros id j Hj Hbefore Hno;
    [done|].
  destruct j as [|j]; simpl in *.
  - injection Hj as -> ->. rewrite Nat.add_0_r in Hno. rewrite Hno. by exists [].
  - destruct (Hbefore 0%nat t0 kw0) as [x Hx]; [lia|done|].
    rewrite Nat.add_0_r in Hx. rewrite Hx.
    destruct (IH (S id) j Hj) as (xs & -> & Hlen).
    { intros j' t' kw' Hlt Hj'. replace (S id + j')%nat with (id + S j')%nat by lia.
      apply Hbefore; [lia|done]. }
    { by replace (S id + j)%nat with (id + S j)%nat by lia. }
    exists (x :: xs). simpl. by rewrite Hlen.
Qed.

(** *** What the loop makes *)

Lemma turn_length self i xs : length (turn self i xs) = (length xs + 3)%nat.
Proof. unfold turn. simpl. rewrite length_app, length_fmap. simpl. lia. Qed.

Lemma turn_shape id self i xs :
  constructed construct (id + 2) (_entities self) = (xs, true) →
  iteration_shape construct self i (numbered id (turn self i xs)).
Proof.
  intros H. unfold turn, scope_entered. simpl.
  rewrite !numbered_cons, numbered_app. simpl.
  eexists _, _, _, _. split; [reflexivity|]. simpl.
  split_and!; try done.
  replace (S (S id)) with (id + 2)%nat by lia.
  by apply constructed_instances.
Qed.

Lemma unrolled_blocks id self indices es :
  unrolled construct id self indices = (es, true) →
  ∃ blocks, numbered id es = concat blocks ∧
            Forall2 (iteration_shape construct self) indices blocks.
Proof.
  revert id es. induction indices as [|i rest IH]; intros id es H; cbn [unrolled] in H.
  - injection H as <-. exists []. split; [done|constructor].
  - destruct (constructed construct (id + 2) (_entities self)) as [xs ok] eqn:Hxs.
    destruct ok; [|done].
    destruct (unrolled construct (id + length (turn self i xs)) self rest)
      as [es' ok'] eqn:Hrest.
    injection H as <- ->.
    destruct (IH _ _ Hrest) as (blocks & Hcat & Hshape).
    exists (numbered id (turn self i xs) :: blocks). split.
    + change (numbered id (turn self i xs ++ es') =
              numbered id (turn self i xs) ++ concat blocks).
      by rewrite numbered_app, Hcat.
    + constructor; [by apply turn_shape|done].
Qed.

Lemma unrolled_accept id self indices :
  (∀ id' t kw, (t, kw) ∈ _entities self → is_Some (construct id' t kw)) →
  ∃ es, unrolled construct id self indices = (es, true).
Proof.
  intros H. revert id. induction indices as [|i rest IH]; intros id; cbn [unrolled].
  - by exists [].
  - destruct (constructed_accept (id + 2) (_entities self)) as (xs & -> & _).
    { intros j t kw Hj. apply H. by eapply list_elem_of_lookup_2. }
    destruct (IH (id + length (turn self i xs))%nat) as [es ->].
    by eexists.
Qed.

Lemma unrolled_reject id self indices k j t kw :
  (k < length indices)%nat →
  _entities self !! j = Some (t, kw) →
  (∀ k' j' t' kw', (k' < k ∨ k' = k ∧ j' < j)%nat →
     _entities self !! j' = Some (t', kw') →
     is_Some (construct (id + k' * (length (_entities self) + 3) + 2 + j')%nat t' kw')) →
  construct (id + k * (length (_entities self) + 3) + 2 + j)%nat t kw = None →
  ∃ es, unrolled construct id self indices = (es, false) ∧
        length es = (k * (length (_entities self) + 3) + 2 + j)%nat.
Proof.
  revert id indices. induction k as [|k IH]; intros id indices Hk Hj Hbefore Hno;
    (destruct indices as [|i rest]; [simpl in Hk; lia|]); cbn [unrolled].
  - destruct (constructed_reject (id + 2) (_entities self) j t kw Hj) as (xs & -> & Hlen).
    { intros j' t' kw' Hlt Hj'.
      replace (id + 2 + j')%nat
        with (id + 0 * (length (_entities self) + 3) + 2 + j')%nat by lia.
      apply Hbefore; [lia|done]. }
    { by replace (id + 2 + j)%nat
        with (id + 0 * (length (_entities self) + 3) + 2 + j)%nat by lia. }
    eexists. split; [done|]. simpl. rewrite length_fmap. lia.
  - destruct (constructed_accept (id + 2) (_entities self)) as (xs & -> & Hlen).
    { intros j' t' kw' Hj'.
      replace (id + 2 + j')%nat
        with (id + 0 * (length (_entities self) + 3) + 2 + j')%nat by lia.
      apply Hbefore; [lia|done]. }
    rewrite turn_length, Hlen.
    destruct (IH (id + (length (_entities self) + 3))%nat rest) as (es & -> & Hes).
    + simpl in Hk. lia.
    + done.
    + intros k' j' t' kw' Hlt Hj'.
      replace (id + (length (_entities self) + 3) +
               k' * (length (_entities self) + 3) + 2 + j')%nat
        with (id + S k' * (length (_entities self) + 3) + 2 + j')%nat by lia.
      apply Hbefore; [lia|done].
    + by replace (id + (length (_entities self) + 3) +
                  k * (length (_entities self) + 3) + 2 + j)%nat
        with (id + S k * (length (_entities self) + 3) + 2 + j)%nat by lia.
    + eexists. split; [done|]. rewrite length_app, turn_length, Hlen, Hes. lia.
Qed.

(** *** Counting the steps *)

Lemma count_instances templates (body : list Object) :
  Forall2 (instance_of construct) templates body →
  count is_template_entity body = length templates ∧
  count is_push_step body = 0%nat ∧
  count is_bind_step body = 0%nat ∧
  count is_pop_step body = 0%nat.
Proof.
  unfold count. induction 1 as [|tk o templates body (x & Hx & _) _ IH]; [done|].
  destruct IH as (IH1 & IH2 & IH3 & IH4). simpl.
  unfold is_template_entity, is_push_step, is_bind_step, is_pop_step.
  rewrite Hx. simpl. auto.
Qed.

Lemma count_iteration self i (block : list Object) :
  iteration_shape construct self i block →
  count is_push_step block = 1%nat ∧
  count is_bind_step block = 1%nat ∧
  count is_pop_step block = 1%nat ∧
  count is_template_entity block = length (_entities self) ∧
  length block = (length (_entities self) + 3)%nat.
Proof.
  intros (push & set & body & pop & -> & Hpush & Hset & Hbody & Hpop).
  destruct (count_instances _ _ Hbody) as (C1 & C2 & C3 & C4).
  rewrite !count_app, C1, C2, C3, C4, !length_app, <- (Forall2_length _ _ _ Hbody).
  unfold count, is_template_entity, is_push_step, is_bind_step, is_pop_step. simpl.
  rewrite Hpush, Hset, Hpop. simpl. split_and!; lia.
Qed.

Lemma count_blocks self indices (blocks : list (list Object)) :
  Forall2 (iteration_shape construct self) indices blocks →
  count is_push_step (concat blocks) = length indices ∧
  count is_bind_step (concat blocks) = length indices ∧
  count is_pop_step (concat blocks) = length indices ∧
  count is_template_entity (concat blocks)
    = (length indices * length (_entities self))%nat ∧
  length (concat blocks) = (length indices * (length (_entities self) + 3))%nat.
Proof.
  induction 1 as [|i block indices blocks Hblock _ IH]; [done|].
  destruct IH as (IH1 & IH2 & IH3 & IH4 & IH5).
  destruct (count_iteration _ _ _ Hblock) as (C1 & C2 & C3 & C4 & C5).
  simpl. rewrite !count_app, length_app, IH1, IH2, IH3, IH4, IH5, C1, C2, C3, C4, C5.
  split_and!; lia.
Qed.

Lemma py_range_length (N : Z) : length (py_range N) = Z.to_nat N.
Proof. unfold py_range. apply length_seqZ. Qed.

Lemma py_range_lookup (N : Z) (i : nat) (x : Z) :
  py_range N !! i = Some x → x = Z.of_nat i.
Proof. unfold py_range. intros [-> _]%lookup_seqZ. lia. Qed.

Lemma numbered_elem_of id es (o : Object) :
  o ∈ numbered id es ↔ ∃ j, o = {| oid := (id + j)%nat; value := value o |} ∧
                            es !! j = Some (value o).
Proof.
  unfold numbered. rewrite list_elem_of_lookup. split.
  - intros [j Hj]. rewrite list_lookup_imap in Hj.
    destruct (es !! j) as [e|] eqn:He; [|done].
    injection Hj as <-. by exists j.
  - intros (j & Ho & Hj). exists j. rewrite list_lookup_imap, Hj. simpl.
    by rewrite Ho.
Qed.

Lemma elem_of_concat {A} (x : A) (ls : list (list A)) :
  x ∈ concat ls → ∃ l, x ∈ l ∧ l ∈ ls.
Proof.
  induction ls as [|l ls IH]; simpl; [by intros ?%elem_of_nil|].
  rewrite elem_of_app. intros [Hx | Hx].
  - exists l. split; [done|left].
  - destruct (IH Hx) as (l' & Hl' & Hin). exists l'. split; [done|by right].
Qed.

(** *** The claims on the expansion *)

(** C1.  When the configuration value named by the loop resolves to a
    non-negative integer [N] and the constructors accept their arguments,
    [execute] returns one flat list, the concatenation of [N] blocks;
    block [i] (for [i] from [0] to [N - 1], in this order) is a push step, the
    step that binds the index to [i], a new instance of every template entity
    in the declared order and then the pop step, which so sits right after the
    last instance of its turn.  The list has [N] push steps, [N] bind steps,
    [N] pop steps and [N] times as many instances as there are templates. *)
Theorem ForLoop_execute_sequence self w text (N : Z) :
  launch_configurations (context w) !! launch_argument_name self = Some text →
  py_int text = Some N →
  0 ≤ N →
  (∀ id t kw, (t, kw) ∈ entities self → is_Some (construct id t kw)) →
  ∃ w' blocks,
    execute construct py_int (self, w) = ((self, w'), Return (concat blocks)) ∧
    length blocks = Z.to_nat N ∧
    (∀ (i : nat) block, blocks !! i = Some block →
       iteration_shape construct self (Z.of_nat i) block) ∧
    count is_push_step (concat blocks) = Z.to_nat N ∧
    count is_bind_step (concat blocks) = Z.to_nat N ∧
    count is_pop_step (concat blocks) = Z.to_nat N ∧
    count is_template_entity (concat blocks)
      = (Z.to_nat N * length (entities self))%nat.
Proof.
  unfold launch_argument_name, entities. intros Htext HN _ Haccept.
  rewrite execute_eq, Htext, HN.
  destruct (unrolled_accept (length (objects w)) self (py_range N) Haccept) as [es Hes].
  rewrite Hes.
  destruct (unrolled_blocks _ _ _ _ Hes) as (blocks & -> & Hshape).
  destruct (count_blocks _ _ _ Hshape) as (C1 & C2 & C3 & C4 & _).
  rewrite py_range_length in *.
  eexists _, blocks. split; [done|].
  split; [by rewrite <- (Forall2_length _ _ _ Hshape), py_range_length|].
  split; [|done].
  intros i block Hi.
  destruct (Forall2_lookup_r _ _ _ _ _ Hshape Hi) as (x & Hx & Hblock).
  by rewrite <- (py_range_lookup _ _ _ Hx).
Qed.

(** C7.  When the count resolves to zero, [execute] returns the empty list
    and raises nothing; it creates no object and only logs the length. *)
Theorem ForLoop_execute_zero self w text :
  launch_configurations (context w) !! launch_argument_name self = Some text →
  py_int text = Some 0 →
  execute construct py_int (self, w) =
    ((self, logged (LogDebug (_logger self) "for-loop length=0") w), Return []).
Proof.
  unfold launch_argument_name. intros Htext HN.
  rewrite execute_eq, Htext, HN. simpl. by rewrite allocated_nil.
Qed.

(** C2, as amended.  When the configuration value named by the loop is not
    declared, or is declared and is not the numeral of an integer,
    [execute] raises a count resolution error and leaves the world as it
    was: no entity was instantiated and no list is returned. *)
Theorem ForLoop_execute_count_error self w :
  launch_configurations (context w) !! launch_argument_name self = None ∨
  (∃ text, launch_configurations (context w) !! launch_argument_name self = Some text ∧
           py_int text = None) →
  ∃ e, CountResolutionError e ∧
       execute construct py_int (self, w) = ((self, w), Raise e).
Proof.
  unfold launch_argument_name. intros [Hnone | (text & Htext & Hint)];
    rewrite execute_eq.
  - rewrite Hnone. eexists. split; [|reflexivity]. done.
  - rewrite Htext, Hint. eexists. split; [|reflexivity]. done.
Qed.

(** C9.  Whatever [execute] does, it leaves [self] as it found it, so the
    [launch_argument_name] and [entities] of the loop are those its
    constructor stored; it does not touch the launch context either, where
    the state of the iterations will live. *)
Theorem ForLoop_execute_self_unchanged self w :
  let after := (execute construct py_int (self, w)).1 in
  after.1 = self ∧
  launch_argument_name after.1 = launch_argument_name self ∧
  entities after.1 = entities self ∧
  context after.2 = context w.
Proof.
  simpl. rewrite execute_eq.
  destruct (launch_configurations (context w) !! _launch_argument_name self)
    as [text|]; [|done].
  destruct (py_int text) as [num|]; [|done].
  by destruct (unrolled construct (length (objects w)) self (py_range num)).
Qed.

(** C5.  The list [execute] returns holds no template pair: its objects were
    all created by this call (none was on the heap before, each is on the heap
    after), they are pairwise distinct, so no object is met twice by a caller
    that runs the list in order, and each of those that are not scope steps
    is what the call of the class of one of the templates made. *)
Theorem ForLoop_execute_fresh_instances self w self' w' (returned : list Object) :
  execute construct py_int (self, w) = ((self', w'), Return returned) →
  NoDup (oid <$> returned) ∧
  take (length (objects w)) (objects w') = objects w ∧
  (∀ o, o ∈ returned →
     (length (objects w) ≤ oid o)%nat ∧ objects w' !! oid o = Some (value o)) ∧
  (∀ o, o ∈ returned → is_template_entity o = true →
     ∃ tk, tk ∈ entities self ∧ instance_of construct tk o).
Proof.
  unfold entities. rewrite execute_eq.
  destruct (launch_configurations (context w) !! _launch_argument_name self)
    as [text|]; [|done].
  destruct (py_int text) as [num|]; [|done].
  destruct (unrolled construct (length (objects w)) self (py_range num))
    as [es ok] eqn:Hes.
  destruct ok; [|done]. intros [= <- <- <-]. simpl.
  split; [rewrite numbered_oid; apply NoDup_seq|].
  split; [by rewrite take_app_length|].
  split.
  - intros o (j & Ho & Hj)%numbered_elem_of. rewrite Ho. simpl. split; [lia|].
    rewrite lookup_app_r by lia.
    by replace (length (objects w) + j - length (objects w))%nat with j by lia.
  - destruct (unrolled_blocks _ _ _ _ Hes) as (blocks & -> & Hshape).
    intros o Ho Hinst.
    apply elem_of_concat in Ho as (block & Ho & Hblock).
    apply list_elem_of_lookup in Hblock as [i Hi].
    destruct (Forall2_lookup_r _ _ _ _ _ Hshape Hi)
      as (x & _ & push & set & body & pop & -> & Hpush & Hset & Hbody & Hpop).
    unfold is_template_entity in Hinst.
    rewrite !elem_of_app, !elem_of_cons, elem_of_nil in Ho.
    destruct Ho as [[->| [->|[]]] | [Ho | [->|[]]]];
      [by rewrite Hpush in Hinst|by rewrite Hset in Hinst| |by rewrite Hpop in Hinst].
    apply list_elem_of_lookup in Ho as [j Hj].
    destruct (Forall2_lookup_r _ _ _ _ _ Hbody Hj) as (tk & Htk & Hof).
    exists tk. split; [by eapply list_elem_of_lookup_2|done].
Qed.

(** C8.  When the constructor of the template at position [j] rejects its
    arguments in turn [k] of the loop, all the calls before that one having
    been accepted, [execute] raises the construction error at once: it
    returns no list, nothing is created after the rejected call, so no later
    turn is expanded, and the launch context is as it was. *)
Theorem ForLoop_execute_construction_error self w text (N : Z) (k j : nat) t kw :
  launch_configurations (context w) !! launch_argument_name self = Some text →
  py_int text = Some N →
  Z.of_nat k < N →
  entities self !! j = Some (t, kw) →
  (∀ k' j' t' kw', (k' < k ∨ k' = k ∧ j' < j)%nat →
     entities self !! j' = Some (t', kw') →
     is_Some (construct (instance_id w self k' j') t' kw')) →
  construct (instance_id w self k j) t kw = None →
  ∃ w',
    execute construct py_int (self, w) = ((self, w'), Raise EntityConstructionError) ∧
    context w' = context w ∧
    take (length (objects w)) (objects w') = objects w ∧
    length (objects w') = instance_id w self k j.
Proof.
  unfold launch_argument_name, entities, instance_id.
  intros Htext HN Hk Hj Hbefore Hno.
  rewrite execute_eq, Htext, HN.
  destruct (unrolled_reject (length (objects w)) self (py_range N) k j t kw)
    as (es & -> & Hlen); [rewrite py_range_length; lia|done..|].
  eexists. split; [done|]. simpl.
  split; [done|]. split; [by rewrite take_app_length|].
  rewrite length_app, Hlen. lia.
Qed.

(** *** The scope steps *)

Lemma push_locals_eq self w :
  OpaqueFunction_execute (entity:=entity) (push_locals_of self) w =
    (with_context (with_locals (push_frame (locals (context w))) (context w)) w,
     Return None).
Proof. done. Qed.

Lemma pop_locals_eq self w :
  OpaqueFunction_execute (entity:=entity) (pop_locals_of self) w =
    match pop_frame (locals (context w)) with
    | Some l => (with_context (with_locals l (context w)) w, Return None)
    | None => (w, Raise LocalsStackEmpty)
    end.
Proof.
  unfold OpaqueFunction_execute, invoke, _pop_locals, bind, world, on_snd,
    context_pop_locals. simpl.
  by destruct (pop_frame (locals (context w))).
Qed.

Lemma set_index_local_eq self local_name index w :
  OpaqueFunction_execute (entity:=entity) (set_index_local_of self local_name index) w =
    (with_context
       (with_locals (bind_local local_name (py_str index) (locals (context w))) (context w))
       match read local_name (locals (context w)) with
       | Some v =>
           logged (LogWarning (_logger self)
             ("local variable already exists: " +:+ local_name +:+ "=" +:+ v)) w
       | None => w
       end,
     Return None).
Proof.
  unfold OpaqueFunction_execute, invoke, _set_index_local, bind, world, on_snd,
    locals_contains, locals_getattr, extend_locals, get_self, gets, modify. simpl.
  destruct (contains local_name (locals (context w))) eqn:Hc.
  - apply contains_read in Hc as [v Hv]. cbn [fst snd]. by rewrite Hv.
  - apply contains_read_None in Hc. by rewrite Hc.
Qed.

(** C10.  A scope step that is executed returns no further entity: the push
    step and the bind step always return [None], and so does the pop step,
    unless no frame was pushed, in which case it returns nothing at all
    but raises. *)
Theorem scope_step_returns_no_entity (function : Callable entity_t kwargs) w :
  match (OpaqueFunction_execute (entity:=entity) function w).2 with
  | Return further => further = None
  | Raise e =>
      e = LocalsStackEmpty ∧
      (∃ self, function = pop_locals_of self) ∧
      enclosing (locals (context w)) = []
  end.
Proof.
  destruct function as [self | self local_name index | self].
  - by rewrite push_locals_eq.
  - by rewrite set_index_local_eq.
  - rewrite pop_locals_eq. unfold pop_frame.
    destruct (enclosing (locals (context w))) eqn:He; simpl; [|done].
    split_and!; [done|by exists self|done].
Qed.

(** C6.  The push step and then the bind step of a turn, from any world.
    Before it binds, the bind step looks the name up: when a frame under
    the new one binds it, one warning is logged, with the value that is
    shadowed, and otherwise nothing is logged.  In both cases the step
    raises nothing, the name then reads as the index, and the frames
    under the new one are as they were, so that a pop brings them back. *)
Theorem bind_step_warns_and_shadows self (index : Z) w :
  let name := launch_argument_name self in
  ∃ w1 w2,
    OpaqueFunction_execute (entity:=entity) (push_locals_of self) w = (w1, Return None) ∧
    OpaqueFunction_execute (entity:=entity) (set_index_local_of self name index) w1
      = (w2, Return None) ∧
    trace w2 =
      match read name (locals (context w)) with
      | Some outer =>
          LogWarning (_logger self)
            ("local variable already exists: " +:+ name +:+ "=" +:+ outer) :: trace w
      | None => trace w
      end ∧
    read name (locals (context w2)) = Some (py_str index) ∧
    enclosing (locals (context w2)) = frames (locals (context w)) ∧
    pop_frame (locals (context w2)) = Some (locals (context w)).
Proof.
  cbv zeta. eexists _, _. rewrite push_locals_eq. split; [done|].
  rewrite set_index_local_eq. split; [done|].
  cbn [context locals with_context with_locals]. rewrite read_push_frame.
  destruct (read (launch_argument_name self) (locals (context w))) as [outer|];
    cbn [context locals with_context with_locals logged trace];
    rewrite read_bind_local_eq, pop_bind_push_frame; done.
Qed.

(** *** More on the expansion *)

Lemma py_range_nonpositive (N : Z) : N ≤ 0 → py_range N = [].
Proof.
  intros HN. unfold py_range, seqZ.
  by replace (Z.to_nat N) with 0%nat by lia.
Qed.

Lemma py_range_positive (N : Z) : 0 < N → ∃ rest, py_range N = 0 :: rest.
Proof.
  intros HN. unfold py_range. rewrite seqZ_cons by done. by eexists.
Qed.

Lemma py_range_nil_inv (N : Z) : py_range N = [] → N ≤ 0.
Proof.
  intros Hnil. destruct (decide (N ≤ 0)) as [|Hpos]; [done|].
  destruct (py_range_positive N) as [rest Hrest]; [lia|congruence].
Qed.

Lemma unrolled_rejected id self indices es :
  unrolled construct id self indices = (es, false) →
  indices ≠ [] ∧ _entities self ≠ [].
Proof.
  revert id es. induction indices as [|i rest IH]; intros id es; cbn [unrolled]; [done|].
  destruct (_entities self) as [|tk templates] eqn:Htemplates.
  - simpl. destruct (unrolled construct _ self rest) as [es' ok'] eqn:Hrest.
    intros [= _ ->]. rewrite <- Htemplates in IH. by destruct (IH _ _ Hrest).
  - done.
Qed.

Lemma constructed_unbuildable id templates t kw :
  (t, kw) ∈ templates →
  (∀ id', construct id' t kw = None) →
  ∃ xs, constructed construct id templates = (xs, false) ∧
        (length xs < length templates)%nat.
Proof.
  intros Hin Hno. revert id.
  induction templates as [|[t0 kw0] rest IH]; intros id; [by apply elem_of_nil in Hin|].
  simpl. destruct (construct id t0 kw0) as [x|] eqn:Hx.
  - apply elem_of_cons in Hin as [[= -> ->] | Hin]; [by rewrite Hno in Hx|].
    destruct (IH Hin (S id)) as (xs & -> & Hlen). exists (x :: xs). simpl.
    split; [done|lia].
  - exists []. simpl. split; [done|lia].
Qed.

Lemma unrolled_length id self indices es :
  unrolled construct id self indices = (es, true) →
  length es = (length indices * (length (_entities self) + 3))%nat.
Proof.
  intros Hes. destruct (unrolled_blocks _ _ _ _ Hes) as (blocks & Hcat & Hshape).
  destruct (count_blocks _ _ _ Hshape) as (_ & _ & _ & _ & Hlen).
  by rewrite <- (numbered_length id es), Hcat.
Qed.

(** X1.  A count that is zero or negative is no error: [range] is empty, so
    [execute] returns the empty list, calls no constructor, whatever the
    templates, and only logs the length. *)
Theorem ForLoop_execute_nonpositive self w text (N : Z) :
  launch_configurations (context w) !! launch_argument_name self = Some text →
  py_int text = Some N →
  N ≤ 0 →
  execute construct py_int (self, w) =
    ((self, logged (LogDebug (_logger self) ("for-loop length=" +:+ py_str N)) w),
     Return []).
Proof.
  unfold launch_argument_name. intros Htext HN Hle.
  rewrite execute_eq, Htext, HN, py_range_nonpositive by done.
  simpl. by rewrite allocated_nil.
Qed.

(** X2.  What [execute] can raise, and when: the failure of the substitution
    when the launch argument is not declared, the error of [int] on its text
    when that is no integer, both with the world untouched, or the error of a
    constructor, which takes a positive count and at least one template.
    Nothing else is ever raised. *)
Theorem ForLoop_execute_raises self w after e :
  execute construct py_int (self, w) = (after, Raise e) →
  (e = SubstitutionFailure (launch_argument_name self) ∧ after = (self, w) ∧
   launch_configurations (context w) !! launch_argument_name self = None) ∨
  (∃ text, e = ValueError text ∧ after = (self, w) ∧
     launch_configurations (context w) !! launch_argument_name self = Some text ∧
     py_int text = None) ∨
  (∃ text N, e = EntityConstructionError ∧
     launch_configurations (context w) !! launch_argument_name self = Some text ∧
     py_int text = Some N ∧ 0 < N ∧ entities self ≠ []).
Proof.
  unfold launch_argument_name, entities. rewrite execute_eq.
  destruct (launch_configurations (context w) !! _launch_argument_name self)
    as [text|]; [|intros [= <- <-]; by left].
  destruct (py_int text) as [N|] eqn:HN; [|intros [= <- <-]; right; left; by exists text].
  destruct (unrolled construct (length (objects w)) self (py_range N))
    as [es ok] eqn:Hes.
  destruct ok; [done|]. intros [= <- <-]. right. right. exists text, N.
  destruct (unrolled_rejected _ _ _ _ Hes) as [Hindices Htemplates].
  split_and!; try done.
  destruct (decide (0 < N)) as [|Hle]; [done|].
  by rewrite py_range_nonpositive in Hindices by lia.
Qed.

(** X3.  A template whose constructor rejects its arguments whenever it is
    called makes every expansion with a positive count fail, in the first turn
    of the loop: fewer objects are created than one turn takes. *)
Theorem ForLoop_execute_unbuildable self w text (N : Z) t kw :
  launch_configurations (context w) !! launch_argument_name self = Some text →
  py_int text = Some N →
  0 < N →
  (t, kw) ∈ entities self →
  (∀ id, construct id t kw = None) →
  ∃ w', execute construct py_int (self, w) = ((self, w'), Raise EntityConstructionError) ∧
        (length (objects w') < length (objects w) + (length (entities self) + 3))%nat.
Proof.
  unfold launch_argument_name, entities. intros Htext HN Hpos Hin Hno.
  rewrite execute_eq, Htext, HN.
  destruct (py_range_positive N Hpos) as [rest ->]. cbn [unrolled].
  destruct (constructed_unbuildable (length (objects w) + 2) _ t kw Hin Hno)
    as (xs & -> & Hlen).
  eexists. split; [done|]. cbn [objects allocated].
  rewrite !length_app, length_fmap. simpl. lia.
Qed.

(** X4.  When [execute] returns, it returns all it created and nothing else:
    the heap has grown by the returned objects, in the order of the list, with
    consecutive identities.  The count had resolved, and the list has one
    block of three scope steps and one instance per template for each turn,
    none when the count is negative. *)
Theorem ForLoop_execute_returns_what_it_creates self w self' w' (returned : list Object) :
  execute construct py_int (self, w) = ((self', w'), Return returned) →
  objects w' = objects w ++ (value <$> returned) ∧
  oid <$> returned = seq (length (objects w)) (length returned) ∧
  ∃ text N,
    launch_configurations (context w) !! launch_argument_name self = Some text ∧
    py_int text = Some N ∧
    length returned = (Z.to_nat N * (length (entities self) + 3))%nat.
Proof.
  unfold launch_argument_name, entities. rewrite execute_eq.
  destruct (launch_configurations (context w) !! _launch_argument_name self)
    as [text|]; [|done].
  destruct (py_int text) as [N|] eqn:HN; [|done].
  destruct (unrolled construct (length (objects w)) self (py_range N))
    as [es ok] eqn:Hes.
  destruct ok; [|done]. intros [= <- <- <-]. simpl.
  rewrite numbered_value, numbered_oid, numbered_length.
  split_and!; try done. exists text, N. split_and!; try done.
  by rewrite (unrolled_length _ _ _ _ Hes), py_range_length.
Qed.

(** X5.  On every path [execute] only adds to the heap, and all it may add to
    the trace is the one debug record of the length of the loop: it logs no
    warning and no message of its entities. *)
Theorem ForLoop_execute_effects self w :
  let w' := (execute construct py_int (self, w)).1.2 in
  take (length (objects w)) (objects w') = objects w ∧
  (trace w' = trace w ∨
   ∃ N, trace w' = LogDebug (_logger self) ("for-loop length=" +:+ py_str N) :: trace w).
Proof.
  cbv zeta. rewrite execute_eq.
  destruct (launch_configurations (context w) !! _launch_argument_name self)
    as [text|]; [|split; [apply firstn_all|by left]].
  destruct (py_int text) as [N|]; [|split; [apply firstn_all|by left]].
  destruct (unrolled construct (length (objects w)) self (py_range N)) as [es ok].
  simpl. split; [by rewrite take_app_length|]. right. by exists N.
Qed.

Lemma omap_bound_index_instances templates (body : list Object) :
  Forall2 (instance_of construct) templates body → omap bound_index body = [].
Proof.
  induction 1 as [|tk o templates body (x & Hx & _) _ IH]; [done|].
  simpl. unfold bound_index at 1. by rewrite Hx.
Qed.

Lemma omap_bound_index_blocks self indices (blocks : list (list Object)) :
  Forall2 (iteration_shape construct self) indices blocks →
  omap bound_index (concat blocks) = indices.
Proof.
  induction 1 as [|i block indices blocks
                    (push & set & body & pop & -> & Hpush & Hset & Hbody & Hpop) _ IH];
    [done|].
  cbn [concat]. rewrite !omap_app, IH, (omap_bound_index_instances _ _ Hbody).
  simpl. unfold bound_index. by rewrite Hpush, Hset, Hpop.
Qed.

(** X6.  The bind steps of the returned list bind, in the order of the list,
    the indices from 0 to the count (exclusive), and the strings they bind
    are pairwise distinct: every turn has a value of its own. *)
Theorem ForLoop_execute_binds_unique_values self w after (returned : list Object) :
  execute construct py_int (self, w) = (after, Return returned) →
  NoDup (py_str <$> omap bound_index returned) ∧
  ∃ text N,
    launch_configurations (context w) !! launch_argument_name self = Some text ∧
    py_int text = Some N ∧
    omap bound_index returned = py_range N.
Proof.
  unfold launch_argument_name. rewrite execute_eq.
  destruct (launch_configurations (context w) !! _launch_argument_name self)
    as [text|]; [|done].
  destruct (py_int text) as [N|] eqn:HN; [|done].
  destruct (unrolled construct (length (objects w)) self (py_range N))
    as [es ok] eqn:Hes.
  destruct ok; [|done]. intros [= _ <-].
  destruct (unrolled_blocks _ _ _ _ Hes) as (blocks & -> & Hshape).
  rewrite (omap_bound_index_blocks _ _ _ Hshape). split.
  - apply (NoDup_fmap_2 _). apply NoDup_seqZ.
  - by exists text, N.
Qed.

(** X7.  The action can be executed again: the second expansion returns as
    many entities as the first, and none of them is an object of the first, so
    that no entity is run twice. *)
Theorem ForLoop_execute_again self w self1 w1 (first : list Object)
    self2 w2 (second : list Object) :
  execute construct py_int (self, w) = ((self1, w1), Return first) →
  execute construct py_int (self1, w1) = ((self2, w2), Return second) →
  length second = length first ∧
  ∀ o1 o2, o1 ∈ first → o2 ∈ second → oid o1 ≠ oid o2.
Proof.
  rewrite !execute_eq.
  destruct (launch_configurations (context w) !! _launch_argument_name self)
    as [text|] eqn:Htext; [|done].
  destruct (py_int text) as [N|] eqn:HN; [|done].
  destruct (unrolled construct (length (objects w)) self (py_range N))
    as [es ok] eqn:Hes.
  destruct ok; [|done]. intros [= <- <- <-]. cbn [context allocated logged objects].
  rewrite Htext, HN.
  destruct (unrolled construct (length (objects w ++ es)) self (py_range N))
    as [es' ok'] eqn:Hes'.
  destruct ok'; [|done]. intros [= _ _ <-].
  rewrite !numbered_length.
  split; [by rewrite (unrolled_length _ _ _ _ Hes), (unrolled_length _ _ _ _ Hes')|].
  intros o1 o2 (j1 & Ho1 & Hj1)%numbered_elem_of (j2 & Ho2 & Hj2)%numbered_elem_of.
  apply lookup_lt_Some in Hj1. rewrite Ho1, Ho2, length_app. simpl. lia.
Qed.

(** *** More on the scope steps *)

(** X8.  The test of the bind step is on all the locals that are visible,
    those of the current frame included: a bind step that follows another for
    the same name, with no push in between, warns of the value the first one
    bound, and overwrites it. *)
Theorem bind_step_twice_warns self local_name (first second : Z) w :
  ∃ w1 w2,
    OpaqueFunction_execute (entity:=entity) (set_index_local_of self local_name first) w
      = (w1, Return None) ∧
    OpaqueFunction_execute (entity:=entity) (set_index_local_of self local_name second) w1
      = (w2, Return None) ∧
    trace w2 =
      LogWarning (_logger self)
        ("local variable already exists: " +:+ local_name +:+ "=" +:+ py_str first)
      :: trace w1 ∧
    read local_name (locals (context w2)) = Some (py_str second) ∧
    enclosing (locals (context w2)) = enclosing (locals (context w)).
Proof.
  eexists _, _. rewrite set_index_local_eq. split; [done|].
  rewrite set_index_local_eq. split; [done|].
  cbn [context locals with_context with_locals]. rewrite !read_bind_local_eq.
  cbn [context locals with_context with_locals logged trace].
  by destruct (read local_name (locals (context w))).
Qed.

(** X9.  The bind step changes one name in one frame: every other name
    reads as before, the frames under the current one, the launch
    configurations and the heap are as they were. *)
Theorem bind_step_changes_one_name self local_name (index : Z) w other :
  other ≠ local_name →
  let w' := (OpaqueFunction_execute (entity:=entity)
               (set_index_local_of self local_name index) w).1 in
  read other (locals (context w')) = read other (locals (context w)) ∧
  enclosing (locals (context w')) = enclosing (locals (context w)) ∧
  launch_configurations (context w') = launch_configurations (context w) ∧
  objects w' = objects w.
Proof.
  intros Hother. cbv zeta. rewrite set_index_local_eq.
  cbn [fst context locals with_context with_locals objects].
  rewrite read_bind_local_ne by done.
  by destruct (read local_name (locals (context w))).
Qed.

(** X10.  A pop step right after a push step never raises and gives back
    the world the push step found, whichever loops the two steps are of. *)
Theorem push_step_then_pop_step self self' w :
  ∃ w1,
    OpaqueFunction_execute (entity:=entity) (push_locals_of self) w = (w1, Return None) ∧
    OpaqueFunction_execute (entity:=entity) (pop_locals_of self') w1 = (w, Return None).
Proof.
  eexists. rewrite push_locals_eq. split; [done|].
  rewrite pop_locals_eq. cbn [context locals with_context with_locals].
  rewrite pop_push_frame. destruct w as [[configurations l] heap t]. done.
Qed.

(** *** The description *)

Lemma append_inj_l (s t1 t2 : string) : s +:+ t1 = s +:+ t2 → t1 = t2.
Proof. induction s as [|c s IH]; simpl; [done|]. intros [= H]. by apply IH. Qed.

Lemma append_length (s t : string) :
  String.length (s +:+ t) = (String.length s + String.length t)%nat.
Proof. induction s as [|c s IH]; simpl; [done|]. by rewrite IH. Qed.

Lemma append_inj_r (s1 s2 t : string) : s1 +:+ t = s2 +:+ t → s1 = s2.
Proof.
  revert s2. induction s1 as [|c s1 IH]; intros [|c2 s2]; simpl.
  - done.
  - intros H. apply (f_equal String.length) in H.
    rewrite ?append_length in H. simpl in H. rewrite ?append_length in H. lia.
  - intros H. apply (f_equal String.length) in H.
    rewrite ?append_length in H. simpl in H. rewrite ?append_length in H. lia.
  - intros [= -> H]. f_equal. by apply IH.
Qed.

(** X11.  [describe] tells apart loops over different launch arguments:
    two loops of the same class, with the same entities and the same
    description, are over the same launch argument. *)
Theorem describe_inj type_name (repr : list (entity_t * kwargs) → string) self self' :
  entities self = entities self' →
  describe type_name repr self = describe type_name repr self' →
  launch_argument_name self = launch_argument_name self'.
Proof.
  unfold entities, launch_argument_name, describe. intros ->.
  intros H%append_inj_l%append_inj_l. by apply append_inj_r in H.
Qed.

End ForLoopProperties.

(** ** The visit of a launch description *)

Section VisitProperties.
Variable py_int : string → option Z.

Local Abbreviation World := (World Class Kwargs Action).
Local Abbreviation Object := (Object Class Kwargs Action).
Local Abbreviation ForLoop := (ForLoop Class Kwargs).

Implicit Types (w : World) (es : list Object) (self : ForLoop).

Lemma visit_nil depth w : visit py_int depth [] w = (w, Return ()).
Proof. by destruct depth. Qed.

Lemma visit_cons depth (o : Object) es w :
  visit py_int (S depth) (o :: es) w =
    match Entity_execute py_int (value o) w with
    | (w1, Return (Some sub_entities)) =>
        match visit py_int depth sub_entities w1 with
        | (w2, Return _) => visit py_int (S depth) es w2
        | (w2, Raise e) => (w2, Raise e)
        end
    | (w1, Return None) => visit py_int (S depth) es w1
    | (w1, Raise e) => (w1, Raise e)
    end.
Proof.
  cbn [visit]. unfold bind at 1 2.
  destruct (Entity_execute py_int (value o) w) as [w1 [[sub|]|e]]; [|done..].
  by destruct (visit py_int depth sub w1) as [w2 [[]|e]].
Qed.

Lemma visit_app depth es1 es2 w :
  visit py_int depth (es1 ++ es2) w =
    match visit py_int depth es1 w with
    | (w', Return _) => visit py_int depth es2 w'
    | (w', Raise e) => (w', Raise e)
    end.
Proof.
  destruct depth as [|depth].
  - by destruct es1.
  - revert w. induction es1 as [|o es1 IH]; intros w; [done|].
    rewrite <- app_comm_cons, !visit_cons.
    destruct (Entity_execute py_int (value o) w) as [w1 [[sub|]|e]]; [|done..].
    by destruct (visit py_int depth sub w1) as [w2 [[]|e]].
Qed.

(** *** References *)







(** *** A loop as an entity *)


Lemma with_locals_with_locals l l' (c : LaunchContext) :
  with_locals l (with_locals l' c) = with_locals l c.
Proof. done. Qed.

Lemma with_locals_locals (c : LaunchContext) : with_locals (locals c) c = c.
Proof. by destruct c. Qed.


(** *** The context across a visit *)






(** *** The turns of a visited expansion *)




(** *** References across a visit *)









(** *** The loop of the docstring *)

Lemma append_empty_r (s : string) : s +:+ "" = s.
Proof.
  induction s as [|c s IH]; [done|].
  change (String c (s +:+ "") = String c s). by rewrite IH.
Qed.

Lemma LogInfo_execute_index name bound w :
  read name (locals (context w)) = Some bound →
  LogInfo_execute [TextSubstitution "i="; LocalSubstitution name] w =
    (logged (LogInfoMsg ("i=" +:+ bound)) (logged (Resolved name bound) w), Return None).
Proof.
  intros Hread.
  unfold LogInfo_execute, perform_substitutions, Substitution_perform, bind,
    locals_getattr, emit, modify, ret.
  cbn [fst snd]. rewrite Hread. simpl. by rewrite append_empty_r.
Qed.

Lemma visit_docstring_block depth (i : Z) (block : list Object) w :
  iteration_shape Class_call docstring_loop i block →
  ∃ w', visit py_int (S depth) block w = (w', Return ()) ∧
        context w' = context w ∧
        info_messages (trace w') = ("i=" +:+ py_str i) :: info_messages (trace w).
Proof.
  intros (push & set & body & pop & -> & Hpush & Hset & Hbody & Hpop).
  apply Forall2_cons_inv_l in Hbody as (o & body' & (x & Hx & Hcall) & Hnil & ->).
  apply Forall2_nil_inv_l in Hnil as ->. simpl in Hcall. injection Hcall as <-.
  change ([push; set] ++ [o] ++ [pop]) with [push; set; o; pop].
  rewrite visit_cons, Hpush. cbn [Entity_execute]. rewrite push_locals_eq.
  rewrite visit_cons, Hset. cbn [Entity_execute]. rewrite set_index_local_eq.
  rewrite visit_cons, Hx. cbn [Entity_execute].
  rewrite (LogInfo_execute_index "num" (py_str i))
    by (cbn [context locals with_context with_locals]; apply read_bind_local_eq).
  rewrite visit_cons, Hpop. cbn [Entity_execute]. rewrite pop_locals_eq.
  cbn [context locals with_context with_locals logged _launch_argument_name
       docstring_loop __init__].
  rewrite pop_bind_push_frame, visit_nil. eexists. split; [done|].
  cbn [context with_context]. split.
  - rewrite !with_locals_with_locals. apply with_locals_locals.
  - by destruct (read "num" (push_frame (locals (context w)))).
Qed.

Lemma visit_docstring_blocks depth indices (blocks : list (list Object)) w :
  Forall2 (iteration_shape Class_call docstring_loop) indices blocks →
  ∃ w', visit py_int (S depth) (concat blocks) w = (w', Return ()) ∧
        context w' = context w ∧
        rev (info_messages (trace w')) =
          rev (info_messages (trace w)) ++ ((λ i, "i=" +:+ py_str i) <$> indices).
Proof.
  intros Hshape. revert w.
  induction Hshape as [|i block indices blocks Hblock _ IH]; intros w.
  - exists w. simpl. by rewrite app_nil_r.
  - destruct (visit_docstring_block depth i block w Hblock) as (w1 & Hw1 & Hc1 & Ht1).
    destruct (IH w1) as (w' & Hw' & Hc' & Ht').
    exists w'. cbn [concat]. rewrite visit_app, Hw1. split; [done|].
    split; [congruence|].
    rewrite Ht', Ht1. simpl. by rewrite <- app_assoc.
Qed.

(** X12.  The example of the docstring, for every count: the visit of what
    the loop expands to comes to its end, logs [i=0], [i=1], and so on up to the
    count (exclusive), in this order and after what was logged before, and
    leaves the launch context as it was. *)
Theorem docstring_loop_output w0 text (N : Z) depth :
  launch_configurations (context w0) !! "num" = Some text →
  py_int text = Some N →
  ∃ after emitted w',
    execute Class_call py_int (docstring_loop, w0) = (after, Return emitted) ∧
    visit py_int (S depth) emitted after.2 = (w', Return ()) ∧
    rev (info_messages (trace w')) =
      rev (info_messages (trace w0)) ++ ((λ i, "i=" +:+ py_str i) <$> py_range N) ∧
    context w' = context w0.
Proof.
  intros Htext HN. rewrite execute_eq.
  change (_launch_argument_name docstring_loop) with "num". rewrite Htext, HN.
  destruct (unrolled_accept Class_call (length (objects w0)) docstring_loop (py_range N))
    as [es Hes].
  { intros id t kw [= -> ->]%list_elem_of_singleton. by eexists. }
  rewrite Hes.
  destruct (unrolled_blocks _ _ _ _ _ Hes) as (blocks & -> & Hshape).
  destruct (visit_docstring_blocks depth _ _
              (allocated es (logged (LogDebug (_logger docstring_loop)
                                       ("for-loop length=" +:+ py_str N)) w0)) Hshape)
    as (w' & Hw' & Hc' & Ht').
  eexists _, _, w'. split; [done|]. split; [exact Hw'|]. split; [exact Ht'|exact Hc'].
Qed.

End VisitProperties.

(* ================================================================= *)
(** * The claims at work *)

(** The example of the docstring: with [num] at ["2"], the visit of the loop
    logs [i=0] and then [i=1] (the trace has the newest event first), and
    leaves the launch context as it was. *)
Example docstring_loop_logs :
  let w := initial_world {[ "num" := "2" ]} in
  let expansion := execute Class_call ascii_int (docstring_loop, w) in
  let visited := visit ascii_int 1 (returned expansion) expansion.1.2 in
  expansion.2 = Return (returned expansion) ∧
  visited.2 = Return () ∧
  trace visited.1 =
    [LogInfoMsg "i=1"; Resolved "num" "1"; LogInfoMsg "i=0"; Resolved "num" "0";
     LogDebug "launch.actions.for_loop" "for-loop length=2"] ∧
  context visited.1 = context w.
Proof. cbv zeta. split_and!; vm_compute; reflexivity. Qed.

Lemma docstring_loop_accepted id t kw :
  (t, kw) ∈ entities docstring_loop → is_Some (Class_call id t kw).
Proof. intros [= -> ->]%list_elem_of_singleton. by eexists. Qed.

Lemma ForLoop_execute_sequence_witness :
  let w := initial_world {[ "num" := "3" ]} in
  launch_configurations (context w) !! launch_argument_name docstring_loop = Some "3" ∧
  ascii_int "3" = Some 3 ∧
  ∃ w' blocks,
    execute Class_call ascii_int (docstring_loop, w)
      = ((docstring_loop, w'), Return (concat blocks)) ∧
    length blocks = Z.to_nat 3 ∧
    (∀ (i : nat) block, blocks !! i = Some block →
       iteration_shape Class_call docstring_loop (Z.of_nat i) block) ∧
    count is_push_step (concat blocks) = Z.to_nat 3 ∧
    count is_bind_step (concat blocks) = Z.to_nat 3 ∧
    count is_pop_step (concat blocks) = Z.to_nat 3 ∧
    count is_template_entity (concat blocks)
      = (Z.to_nat 3 * length (entities docstring_loop))%nat.
Proof.
  cbv zeta. split; [reflexivity|]. split; [reflexivity|].
  apply (ForLoop_execute_sequence Class_call ascii_int docstring_loop
           (initial_world {[ "num" := "3" ]}) "3" 3).
  - reflexivity.
  - reflexivity.
  - lia.
  - apply docstring_loop_accepted.
Defined.

Lemma ForLoop_execute_zero_witness :
  let w := initial_world {[ "num" := "0" ]} in
  launch_configurations (context w) !! launch_argument_name docstring_loop = Some "0" ∧
  ascii_int "0" = Some 0 ∧
  execute Class_call ascii_int (docstring_loop, w) =
    ((docstring_loop,
      logged (LogDebug (_logger docstring_loop) "for-loop length=0") w), Return []).
Proof.
  cbv zeta. split; [reflexivity|]. split; [reflexivity|].
  apply (ForLoop_execute_zero Class_call ascii_int docstring_loop
           (initial_world {[ "num" := "0" ]}) "0"); reflexivity.
Defined.

Lemma ForLoop_execute_count_error_witness :
  let w := initial_world {[ "num" := "two" ]} in
  (∃ text, launch_configurations (context w) !! launch_argument_name docstring_loop
             = Some text ∧ ascii_int text = None) ∧
  ∃ e, CountResolutionError e ∧
       execute Class_call ascii_int (docstring_loop, w) = ((docstring_loop, w), Raise e).
Proof.
  cbv zeta.
  assert (∃ text,
            launch_configurations (context (initial_world {[ "num" := "two" ]}))
              !! launch_argument_name docstring_loop = Some text ∧
            ascii_int text = None) as H.
  { exists "two". split; reflexivity. }
  split; [exact H|].
  apply (ForLoop_execute_count_error Class_call ascii_int docstring_loop
           (initial_world {[ "num" := "two" ]})).
  right. exact H.
Defined.

(** C2, as it stands, fails: ["-1"] is no numeral of a non-negative integer,
    and yet [execute] raises nothing on it and returns the empty list. *)
Lemma ForLoop_execute_negative_count :
  let w := initial_world {[ "num" := "-1" ]} in
  launch_configurations (context w) !! launch_argument_name docstring_loop = Some "-1" ∧
  ¬ (∃ N, ascii_int "-1" = Some N ∧ 0 ≤ N) ∧
  execute Class_call ascii_int (docstring_loop, w) =
    ((docstring_loop,
      logged (LogDebug (_logger docstring_loop) "for-loop length=-1") w), Return []).
Proof.
  cbv zeta. split; [reflexivity|]. split.
  - intros (N & HN & Hle). vm_compute in HN. injection HN as <-. lia.
  - reflexivity.
Qed.

Lemma ForLoop_execute_fresh_instances_witness :
  let w := initial_world {[ "num" := "2" ]} in
  let expansion := execute Class_call ascii_int (docstring_loop, w) in
  expansion = (expansion.1, Return (returned expansion)) ∧
  NoDup (oid <$> returned expansion) ∧
  take (length (objects w)) (objects expansion.1.2) = objects w ∧
  (∀ o, o ∈ returned expansion →
     (length (objects w) ≤ oid o)%nat ∧
     objects expansion.1.2 !! oid o = Some (value o)) ∧
  (∀ o, o ∈ returned expansion → is_template_entity o = true →
     ∃ tk, tk ∈ entities docstring_loop ∧ instance_of Class_call tk o).
Proof.
  cbv zeta. split; [vm_compute; reflexivity|].
  apply (ForLoop_execute_fresh_instances Class_call ascii_int docstring_loop
           (initial_world {[ "num" := "2" ]})
           (execute Class_call ascii_int
              (docstring_loop, initial_world {[ "num" := "2" ]})).1.1).
  vm_compute. reflexivity.
Defined.

(** The third object of the second turn is the seventh the expansion
    creates: with constructors that give out after six objects, the
    expansion stops there. *)
Lemma ForLoop_execute_construction_error_witness :
  let w := initial_world {[ "num" := "3" ]} in
  launch_configurations (context w) !! launch_argument_name docstring_loop = Some "3" ∧
  ascii_int "3" = Some 3 ∧
  Class_call_until 6 (instance_id w docstring_loop 1 0) LogInfo_t
    (kwargs_msg [TextSubstitution "i="; LocalSubstitution "num"]) = None ∧
  ∃ w',
    execute (Class_call_until 6) ascii_int (docstring_loop, w)
      = ((docstring_loop, w'), Raise EntityConstructionError) ∧
    context w' = context w ∧
    take (length (objects w)) (objects w') = objects w ∧
    length (objects w') = instance_id w docstring_loop 1 0.
Proof.
  cbv zeta. split; [reflexivity|]. split; [reflexivity|]. split; [reflexivity|].
  apply (ForLoop_execute_construction_error (Class_call_until 6) ascii_int docstring_loop
           (initial_world {[ "num" := "3" ]}) "3" 3 1 0 LogInfo_t
           (kwargs_msg [TextSubstitution "i="; LocalSubstitution "num"])).
  - reflexivity.
  - reflexivity.
  - lia.
  - reflexivity.
  - intros k' j' t' kw' Hbefore Hj'.
    assert (k' = 0%nat) as -> by lia.
    destruct j' as [|j']; [|done]. injection Hj' as <- <-.
    vm_compute. by eexists.
  - reflexivity.
Defined.





(** ** More of the code at work *)

Lemma ForLoop_execute_nonpositive_witness :
  let w := initial_world {[ "num" := "-4" ]} in
  launch_configurations (context w) !! launch_argument_name misdeclared_loop = Some "-4" ∧
  ascii_int "-4" = Some (-4) ∧
  execute Class_call ascii_int (misdeclared_loop, w) =
    ((misdeclared_loop,
      logged (LogDebug (_logger misdeclared_loop) ("for-loop length=" +:+ py_str (-4))) w),
     Return []).
Proof.
  cbv zeta. split; [reflexivity|]. split; [reflexivity|].
  apply (ForLoop_execute_nonpositive Class_call ascii_int misdeclared_loop
           (initial_world {[ "num" := "-4" ]}) "-4" (-4)).
  - reflexivity.
  - reflexivity.
  - lia.
Defined.

Lemma ForLoop_execute_raises_witness :
  let w := initial_world {[ "num" := "two" ]} in
  execute Class_call ascii_int (docstring_loop, w)
    = ((docstring_loop, w), Raise (ValueError "two")) ∧
  ((ValueError "two" = SubstitutionFailure (launch_argument_name docstring_loop) ∧
    (docstring_loop, w) = (docstring_loop, w) ∧
    launch_configurations (context w) !! launch_argument_name docstring_loop = None) ∨
   (∃ text, ValueError "two" = ValueError text ∧
      (docstring_loop, w) = (docstring_loop, w) ∧
      launch_configurations (context w) !! launch_argument_name docstring_loop
        = Some text ∧
      ascii_int text = None) ∨
   (∃ text N, ValueError "two" = EntityConstructionError ∧
      launch_configurations (context w) !! launch_argument_name docstring_loop
        = Some text ∧
      ascii_int text = Some N ∧ 0 < N ∧ entities docstring_loop ≠ [])).
Proof.
  cbv zeta. split; [reflexivity|].
  apply (ForLoop_execute_raises Class_call ascii_int docstring_loop
           (initial_world {[ "num" := "two" ]})).
  reflexivity.
Defined.

Lemma ForLoop_execute_unbuildable_witness :
  let w := initial_world {[ "num" := "3" ]} in
  launch_configurations (context w) !! launch_argument_name misdeclared_loop = Some "3" ∧
  ascii_int "3" = Some 3 ∧
  (LogInfo_t, kwargs_for_loop "num" []) ∈ entities misdeclared_loop ∧
  (∀ id, Class_call id LogInfo_t (kwargs_for_loop "num" []) = None) ∧
  ∃ w',
    execute Class_call ascii_int (misdeclared_loop, w)
      = ((misdeclared_loop, w'), Raise EntityConstructionError) ∧
    (length (objects w') < length (objects w) + (length (entities misdeclared_loop) + 3))%nat.
Proof.
  cbv zeta. split; [reflexivity|]. split; [reflexivity|].
  assert ((LogInfo_t, kwargs_for_loop "num" []) ∈ entities misdeclared_loop) as Hin
    by (right; left).
  split; [exact Hin|]. split; [reflexivity|].
  apply (ForLoop_execute_unbuildable Class_call ascii_int misdeclared_loop
           (initial_world {[ "num" := "3" ]}) "3" 3 LogInfo_t (kwargs_for_loop "num" [])).
  - reflexivity.
  - reflexivity.
  - lia.
  - exact Hin.
  - reflexivity.
Defined.

Lemma ForLoop_execute_returns_what_it_creates_witness :
  let w := initial_world {[ "num" := "2" ]} in
  let expansion := execute Class_call ascii_int (docstring_loop, w) in
  expansion = (expansion.1, Return (returned expansion)) ∧
  objects expansion.1.2 = objects w ++ (value <$> returned expansion) ∧
  oid <$> returned expansion = seq (length (objects w)) (length (returned expansion)) ∧
  ∃ text N,
    launch_configurations (context w) !! launch_argument_name docstring_loop = Some text ∧
    ascii_int text = Some N ∧
    length (returned expansion) = (Z.to_nat N * (length (entities docstring_loop) + 3))%nat.
Proof.
  intros w expansion.
  assert (expansion = (expansion.1, Return (returned expansion))) as Hexpansion
    by (vm_compute; reflexivity).
  split; [exact Hexpansion|].
  exact (ForLoop_execute_returns_what_it_creates Class_call ascii_int docstring_loop w
           expansion.1.1 expansion.1.2 (returned expansion) Hexpansion).
Defined.

Lemma ForLoop_execute_binds_unique_values_witness :
  let w := initial_world {[ "num" := "3" ]} in
  let expansion := execute Class_call ascii_int (docstring_loop, w) in
  expansion = (expansion.1, Return (returned expansion)) ∧
  NoDup (py_str <$> omap bound_index (returned expansion)) ∧
  ∃ text N,
    launch_configurations (context w) !! launch_argument_name docstring_loop = Some text ∧
    ascii_int text = Some N ∧
    omap bound_index (returned expansion) = py_range N.
Proof.
  intros w expansion.
  assert (expansion = (expansion.1, Return (returned expansion))) as Hexpansion
    by (vm_compute; reflexivity).
  split; [exact Hexpansion|].
  exact (ForLoop_execute_binds_unique_values Class_call ascii_int docstring_loop w
           expansion.1 (returned expansion) Hexpansion).
Defined.

Lemma ForLoop_execute_again_witness :
  let w := initial_world {[ "num" := "2" ]} in
  let first := execute Class_call ascii_int (docstring_loop, w) in
  let second := execute Class_call ascii_int first.1 in
  first = (first.1, Return (returned first)) ∧
  second = (second.1, Return (returned second)) ∧
  length (returned second) = length (returned first) ∧
  ∀ o1 o2, o1 ∈ returned first → o2 ∈ returned second → oid o1 ≠ oid o2.
Proof.
  intros w first second.
  assert (first = ((first.1.1, first.1.2), Return (returned first))) as Hfirst
    by (vm_compute; reflexivity).
  assert (execute Class_call ascii_int (first.1.1, first.1.2)
            = ((second.1.1, second.1.2), Return (returned second))) as Hsecond
    by (vm_compute; reflexivity).
  split; [vm_compute; reflexivity|]. split; [vm_compute; reflexivity|].
  exact (ForLoop_execute_again Class_call ascii_int docstring_loop w
           first.1.1 first.1.2 (returned first) second.1.1 second.1.2 (returned second)
           Hfirst Hsecond).
Defined.

Lemma bind_step_changes_one_name_witness :
  let w := initial_world {[ "num" := "2" ]} in
  let w' := (OpaqueFunction_execute (entity:=Action)
               (set_index_local_of docstring_loop "num" 1) w).1 in
  "other" ≠ "num" ∧
  read "other" (locals (context w')) = read "other" (locals (context w)) ∧
  enclosing (locals (context w')) = enclosing (locals (context w)) ∧
  launch_configurations (context w') = launch_configurations (context w) ∧
  objects w' = objects w.
Proof.
  cbv zeta. split; [discriminate|].
  apply (bind_step_changes_one_name docstring_loop "num" 1
           (initial_world {[ "num" := "2" ]}) "other").
  discriminate.
Defined.

Lemma describe_inj_witness :
  let repr := λ entities : list (Class * Kwargs), "[...]" in
  entities docstring_loop = entities docstring_loop ∧
  describe "ForLoop" repr docstring_loop = describe "ForLoop" repr docstring_loop ∧
  launch_argument_name docstring_loop = launch_argument_name docstring_loop.
Proof.
  cbv zeta. split; [reflexivity|]. split; [reflexivity|].
  apply (describe_inj "ForLoop" (λ entities : list (Class * Kwargs), "[...]")
           docstring_loop docstring_loop); reflexivity.
Defined.

Lemma docstring_loop_output_witness :
  let w0 := initial_world {[ "num" := "2" ]} in
  launch_configurations (context w0) !! "num" = Some "2" ∧
  ascii_int "2" = Some 2 ∧
  ∃ after emitted w',
    execute Class_call ascii_int (docstring_loop, w0) = (after, Return emitted) ∧
    visit ascii_int 1 emitted after.2 = (w', Return ()) ∧
    rev (info_messages (trace w')) =
      rev (info_messages (trace w0)) ++ ((λ i, "i=" +:+ py_str i) <$> py_range 2) ∧
    context w' = context w0.
Proof.
  cbv zeta. split; [reflexivity|]. split; [reflexivity|].
  apply (docstring_loop_output ascii_int (initial_world {[ "num" := "2" ]}) "2" 2 0);
    reflexivity.
Defined.
